(** * On-call Slack notifier: the alert decision of [src/index.js]

    The Node program listens to two Slack events, [app_mention] and
    [message], and decides for each one whether to call the actuator
    [triggerMacAlert] of [src/macAlert.js].  The decision is taken by
    [shouldAlert], over the keyword list read once from the environment
    variable [ALERT_KEYWORDS].

    This development embeds that decision path and states, over the
    embedding, the properties the specification attributes to it.

    Modelling conventions.
    - A JavaScript string is a sequence of code units.  The code units are
      restricted to U+0000..U+00FF and carried by [ascii]; on that range
      [String.prototype.toLowerCase] is a unit-by-unit map and
      [String.prototype.trim] strips the units 9-13, 32 and 160.
      Of [toLowerCase] the proofs use one fact only, which holds of every
      string: it keeps the empty string empty and no other.  Where a
      statement speaks of letters without their case, it compares lowercase
      forms, as the program does.
    - [process.env] is a finite map from names to strings.
    - A handler is a computation over the store of the module (the keyword
      list, the calls made to the actuator, the errors handed to the
      logger) that may throw; [logger.info] output is not modelled. *)

From Stdlib Require Import ZArith NArith Ascii String List Bool Lia.
From stdpp Require Import base option list strings gmap.

Local Open Scope N_scope.

(** ** Strings *)

Module JsString.

(** The uppercase letters of Latin-1: A-Z, and U+00C0..U+00DE but for the
    multiplication sign U+00D7.  Each has its lowercase 32 units above. *)
Definition isUpper (n : N) : bool :=
  ((65 <=? n) && (n <=? 90))
  || ((192 <=? n) && (n <=? 222) && negb (n =? 215)).

Definition lowerUnit (c : ascii) : ascii :=
  let n := N_of_ascii c in
  if isUpper n then ascii_of_N (n + 32) else c.

(** [s.toLowerCase()] *)
Fixpoint toLowerCase (s : string) : string :=
  match s with
  | EmptyString => EmptyString
  | String c s' => String (lowerUnit c) (toLowerCase s')
  end.

(** White space and line terminators, as [trim] understands them:
    TAB, LF, VT, FF, CR, SP and NBSP. *)
Definition isWhiteSpace (c : ascii) : bool :=
  let n := N_of_ascii c in
  ((9 <=? n) && (n <=? 13)) || (n =? 32) || (n =? 160).

Definition isEmpty (s : string) : bool :=
  match s with EmptyString => true | String _ _ => false end.

Fixpoint trimStart (s : string) : string :=
  match s with
  | EmptyString => EmptyString
  | String c s' => if isWhiteSpace c then trimStart s' else s
  end.

Fixpoint trimEnd (s : string) : string :=
  match s with
  | EmptyString => EmptyString
  | String c s' =>
      let r := trimEnd s' in
      if isWhiteSpace c && isEmpty r then EmptyString else String c r
  end.

(** [s.trim()] *)
Definition trim (s : string) : string := trimEnd (trimStart s).

(** [s.startsWith(sub)] *)
Fixpoint startsWith (s sub : string) : bool :=
  match sub, s with
  | EmptyString, _ => true
  | String _ _, EmptyString => false
  | String b sub', String a s' => Ascii.eqb a b && startsWith s' sub'
  end.

(** [s.includes(sub)]: [sub] occurs in [s] at some position. *)
Fixpoint includes (s sub : string) : bool :=
  startsWith s sub
  || match s with
     | EmptyString => false
     | String _ s' => includes s' sub
     end.

(** [s.split(sep)] for a separator of one unit.  The result is never
    empty: the empty string splits into one empty piece. *)
Fixpoint split (sep : ascii) (s : string) : list string :=
  match s with
  | EmptyString => [EmptyString]
  | String c s' =>
      if Ascii.eqb c sep then EmptyString :: split sep s'
      else match split sep s' with
           | [] => [String c EmptyString]
           | piece :: pieces => String c piece :: pieces
           end
  end.

End JsString.

Import JsString.

(** ** Values, completions and the store *)

(** The values a Slack event field can hold, as far as the decision path
    distinguishes them. *)
Inductive JsValue : Type :=
  | JUndefined
  | JNull
  | JBool (b : bool)
  | JNumber (n : Z)
  | JString (s : string).

(** [ToBoolean]. *)
Definition truthy (v : JsValue) : bool :=
  match v with
  | JUndefined | JNull => false
  | JBool b => b
  | JNumber n => negb (n =? 0)%Z
  | JString s => negb (isEmpty s)
  end.

(** [a || b] *)
Definition js_or (a b : JsValue) : JsValue := if truthy a then a else b.

Inductive JsError : Type := TypeError.

Inductive Completion (A : Type) : Type :=
  | Normal (a : A)
  | Throw (e : JsError).
Arguments Normal {A} a.
Arguments Throw {A} e.

(** What [triggerMacAlert] receives. *)
Record AlertRequest : Type := mkAlert {
  title : string;
  message : JsValue;
  channel : string;
  ts : Z
}.

(** The store of the module: the constant [alertKeywords], and the two
    effects a handler has, oldest first. *)
Record Store : Type := mkStore {
  alertKeywords : list string;
  alerts : list AlertRequest;
  logged : list JsError
}.

(** Computations over the store that return or throw. *)
Definition M (A : Type) : Type := Store -> Completion A * Store.

Definition ret {A} (a : A) : M A := fun st => (Normal a, st).

Definition throw {A} (e : JsError) : M A := fun st => (Throw e, st).

Definition bind {A B} (m : M A) (k : A -> M B) : M B :=
  fun st =>
    match m st with
    | (Normal a, st') => k a st'
    | (Throw e, st') => (Throw e, st')
    end.

(** [try { body } catch (error) { handler(error) }] *)
Definition try_catch {A} (body : M A) (handler : JsError -> M A) : M A :=
  fun st =>
    match body st with
    | (Normal a, st') => (Normal a, st')
    | (Throw e, st') => handler e st'
    end.

Definition read_alertKeywords : M (list string) :=
  fun st => (Normal (alertKeywords st), st).

Notation "'let*' x ':=' m 'in' k" := (bind m (fun x => k))
  (at level 10, x name, m at level 100, k at level 200).

(** ** The keyword list

    [(process.env.ALERT_KEYWORDS || '').split(',').map(k => k.trim()).filter(Boolean)] *)

(** [v || ''] for [v] a string or [undefined]. *)
Definition env_or_empty (v : option string) : string :=
  match v with
  | Some s => if isEmpty s then EmptyString else s
  | None => EmptyString
  end.

(** [Boolean(k)] on a string. *)
Definition Boolean (k : string) : bool := negb (isEmpty k).

Definition parseKeywords (env : gmap string string) : list string :=
  List.filter Boolean (List.map trim (split "," (env_or_empty (env !! "ALERT_KEYWORDS")))).

(** The store when the module has been loaded. *)
Definition load (env : gmap string string) : Store :=
  {| alertKeywords := parseKeywords env; alerts := []; logged := [] |}.

(** ** The matcher *)

(** [arr.some(p)]: left to right, stopping at the first element accepted. *)
Fixpoint some {A} (p : A -> bool) (arr : list A) : bool :=
  match arr with
  | [] => false
  | x :: arr' => if p x then true else some p arr'
  end.

(** [v.toLowerCase()]: only strings have the method. *)
Definition call_toLowerCase (v : JsValue) : M string :=
  match v with
  | JString s => ret (toLowerCase s)
  | _ => throw TypeError
  end.

(** [[
function shouldAlert(text, mentions) {
  const lower = (text || '').toLowerCase();
  if (mentions && mentions.length > 0) return true;
  return alertKeywords.some(k => lower.includes(k.toLowerCase()));
}
]] *)
Definition shouldAlert (text : JsValue) (mentions : list string) : M bool :=
  let* lower := call_toLowerCase (js_or text (JString "")) in
  if (0 <? length mentions)%nat then ret true
  else
    let* keywords := read_alertKeywords in
    ret (some (fun k => includes lower (toLowerCase k)) keywords).

(** ** The handlers *)

(** A Slack event.  [ev_text = None] is an event object without a [text]
    key; [ev_ts] is the Slack timestamp, in microseconds. *)
Record Event : Type := mkEvent {
  ev_text : option JsValue;
  ev_channel : string;
  ev_ts : Z
}.

(** [event.text] *)
Definition get_text (e : Event) : JsValue :=
  match ev_text e with
  | Some v => v
  | None => JUndefined
  end.

(** The call [await triggerMacAlert(request)], seen from the handler: the
    request is handed over, and the promise is fulfilled, as it is on the
    strings of this development (see [MacAlert]). *)
Definition triggerMacAlert (request : AlertRequest) : M unit :=
  fun st =>
    (Normal tt,
     {| alertKeywords := alertKeywords st;
        alerts := alerts st ++ [request];
        logged := logged st |}).

(** [logger.error(error)] *)
Definition logger_error (e : JsError) : M unit :=
  fun st =>
    (Normal tt,
     {| alertKeywords := alertKeywords st;
        alerts := alerts st;
        logged := logged st ++ [e] |}).

(** [app.event('app_mention', ...)] *)
Definition on_app_mention (event : Event) : M unit :=
  try_catch
    (let channel := ev_channel event in
     let text := js_or (get_text event) (JString "") in
     let* hit := shouldAlert text ["mention"] in
     if hit then
       triggerMacAlert
         {| title := "On-Call Alert";
            message := js_or text (JString "You were mentioned");
            channel := channel;
            ts := ev_ts event |}
     else ret tt)
    logger_error.

(** [app.message(...)] *)
Definition on_message (message : Event) : M unit :=
  try_catch
    (match ev_text message with
     | None => ret tt
     | Some t =>
         let text := js_or t (JString "") in
         let* hit := shouldAlert text [] in
         if hit then
           triggerMacAlert
             {| title := "On-Call Alert";
                message := text;
                channel := ev_channel message;
                ts := ev_ts message |}
         else ret tt
     end)
    logger_error.

(** What the transport delivers. *)
Inductive Delivery : Type :=
  | AppMention (event : Event)
  | Message (message : Event).

Definition handle (d : Delivery) : M unit :=
  match d with
  | AppMention event => on_app_mention event
  | Message message => on_message message
  end.

(** The store after a handler has run. *)
Definition exec {A} (m : M A) (st : Store) : Store := snd (m st).

(** The store after the deliveries have been handled one after the other. *)
Fixpoint run (ds : list Delivery) (st : Store) : Store :=
  match ds with
  | [] => st
  | d :: ds' => run ds' (exec (handle d) st)
  end.

(** ** The actuator of [src/macAlert.js]

    [triggerMacAlert] shows a notification, then runs shell commands.  The
    actions are kept in a log, oldest first; a command may fail, which
    rejects the promise of [execAsync].  The call of [notifier.notify] is
    taken not to throw. *)

Module MacAlert.

(** [encodeURIComponent]: the units it leaves as they are. *)
Definition isUnreserved (c : ascii) : bool :=
  let n := N_of_ascii c in
  ((65 <=? n) && (n <=? 90)) || ((97 <=? n) && (n <=? 122))
  || ((48 <=? n) && (n <=? 57))
  || (n =? 45) || (n =? 95) || (n =? 46) || (n =? 33) || (n =? 126)
  || (n =? 42) || (n =? 39) || (n =? 40) || (n =? 41).

Definition hexDigit (n : N) : ascii :=
  if n <? 10 then ascii_of_N (48 + n) else ascii_of_N (55 + n).

(** The escape of one octet: a percent sign and two uppercase hexadecimal
    digits. *)
Definition percent (octet : N) : string :=
  String "%" (String (hexDigit (octet / 16)) (String (hexDigit (octet mod 16)) "")).

(** A unit that is not left as it is gives the escapes of its UTF-8 octets:
    one below U+0080, two from there to U+00FF.  On these units the function
    returns: it throws a [URIError] on a lone surrogate only, a unit of
    U+D800..U+DFFF, which no string of this development holds. *)
Definition encodeUnit (c : ascii) : string :=
  let n := N_of_ascii c in
  if isUnreserved c then String c ""
  else if n <? 128 then percent n
  else percent (192 + n / 64) +:+ percent (128 + n mod 64).

(** [encodeURIComponent(s)] *)
Fixpoint encodeURIComponent (s : string) : string :=
  match s with
  | EmptyString => EmptyString
  | String c s' => encodeUnit c +:+ encodeURIComponent s'
  end.

(** The argument of [triggerMacAlert]: [title] and [message] are handed to
    the notifier after [||]; [channel] and [ts] are strings or
    [undefined]. *)
Record Args : Type := mkArgs {
  arg_title : JsValue;
  arg_message : JsValue;
  arg_channel : option string;
  arg_ts : option string
}.

(** The object given to [notifier.notify]. *)
Record Notification : Type := mkNotification {
  n_title : JsValue;
  n_message : JsValue;
  n_subtitle : option string;
  n_sound : string;
  n_wait : bool
}.

Inductive Action : Type :=
  | Notify (n : Notification)
  | Exec (command : string).

Inductive Settled : Type := Fulfilled | Rejected.

(** An asynchronous step over the log of actions. *)
Definition Task : Type := list Action -> Settled * list Action.

(** No step. *)
Definition nothing : Task := fun log => (Fulfilled, log).

(** [first; next]: a rejection of [first] skips [next]. *)
Definition and_then (first next : Task) : Task :=
  fun log =>
    match first log with
    | (Fulfilled, log') => next log'
    | (Rejected, log') => (Rejected, log')
    end.

(** [try { await task } catch {}] *)
Definition attempt (task : Task) : Task :=
  fun log =>
    match task log with
    | (_, log') => (Fulfilled, log')
    end.

Definition notifier_notify (n : Notification) : Task :=
  fun log => (Fulfilled, log ++ [Notify n]).

(** [execAsync(command)], the commands of [fails] being those that fail. *)
Definition execAsync (fails : string -> bool) (command : string) : Task :=
  fun log =>
    (if fails command then Rejected else Fulfilled, log ++ [Exec command]).

Definition truthy_string (v : option string) : bool :=
  match v with
  | Some s => negb (isEmpty s)
  | None => false
  end.

Definition dquote : string := String (ascii_of_N 34) "".

(** [process.env.ALERT_SOUND || 'Submarine'] *)
Definition DEFAULT_SOUND (env : gmap string string) : string :=
  let sound := env_or_empty (env !! "ALERT_SOUND") in
  if isEmpty sound then "Submarine" else sound.

(** [channel ? `Channel: ${channel}` : undefined] *)
Definition subtitle (channel : option string) : option string :=
  match channel with
  | Some c => if isEmpty c then None else Some ("Channel: " +:+ c)
  | None => None
  end.

(** [teamId ? `team=${encodeURIComponent(teamId)}&` : ''] *)
Definition teamParam (env : gmap string string) : string :=
  let teamId := env_or_empty (env !! "SLACK_TEAM_ID") in
  if isEmpty teamId then ""
  else "team=" +:+ encodeURIComponent teamId +:+ "&".

(** [`slack://channel?${teamParam}id=${encodeURIComponent(channel)}&message=${encodeURIComponent(ts)}`] *)
Definition slackDeepLink (env : gmap string string) (channel ts : string) : string :=
  "slack://channel?" +:+ teamParam env +:+ "id=" +:+ encodeURIComponent channel
  +:+ "&message=" +:+ encodeURIComponent ts.

Definition beep_command : string := "osascript -e 'beep 5'".

Definition front_command : string :=
  "osascript -e 'tell application " +:+ dquote +:+ "System Events" +:+ dquote
  +:+ " to set frontmost of process " +:+ dquote +:+ "Terminal" +:+ dquote
  +:+ " to true'".

(** [`open "${slackDeepLink}"`] *)
Definition open_command (link : string) : string :=
  "open " +:+ dquote +:+ link +:+ dquote.

(** [export async function triggerMacAlert({ title, message, channel, ts })] *)
Definition triggerMacAlert
    (fails : string -> bool) (env : gmap string string) (args : Args) : Task :=
  and_then
    (notifier_notify
       {| n_title := js_or (arg_title args) (JString "On-Call Alert");
          n_message :=
            js_or (arg_message args) (JString "You have a new on-call mention");
          n_subtitle := subtitle (arg_channel args);
          n_sound := DEFAULT_SOUND env;
          n_wait := false |})
    (and_then
       (attempt (execAsync fails beep_command))
       (and_then
          (attempt (execAsync fails front_command))
          (match arg_channel args, arg_ts args with
           | Some channel, Some ts =>
               if negb (isEmpty channel) && negb (isEmpty ts)
               then attempt (execAsync fails (open_command (slackDeepLink env channel ts)))
               else nothing
           | _, _ => nothing
           end))).

End MacAlert.

(** * Vocabulary of the properties *)

(** [k] occurs in [text] up to the case of letters, the way the matcher
    compares them: the lowercase form of [k] is a stretch of the lowercase
    form of [text]. *)
Definition occurs_ignoring_case (k text : string) : Prop :=
  exists pre post, toLowerCase text = pre +:+ toLowerCase k +:+ post.

(** The rule a match result names, in the words of the specification. *)
Inductive MatchedRule : Type :=
  | ByKeyword (k : string)
  | ByPattern (p : string)
  | ByMention
  | NoRule.

(** Every unit of [s] satisfies [p]. *)
Fixpoint allUnits (p : ascii -> bool) (s : string) : bool :=
  match s with
  | EmptyString => true
  | String c s' => p c && allUnits p s'
  end.

(** A value of [ALERT_KEYWORDS] with blank entries only: it is unset, or made
    of commas and white space. *)
Definition blank_setting (v : option string) : bool :=
  match v with
  | None => true
  | Some s => allUnits (fun c => isWhiteSpace c || Ascii.eqb c ",") s
  end.

(** The string that [(v || '')] is: [v] itself when it is a string, the
    empty string when [v] is falsy, and no string otherwise. *)
Definition text_of (v : JsValue) : option string :=
  match js_or v (JString "") with
  | JString s => Some s
  | _ => None
  end.

(** The keywords, in order, tested against a text the way the callback of
    [some] does. *)
Definition keyword_scan (keywords : list string) (text : string) : bool :=
  some (fun k => includes (toLowerCase text) (toLowerCase k)) keywords.

(** Whether a completion of the matcher is a match. *)
Definition hit (r : Completion bool * Store) : bool :=
  match fst r with
  | Normal b => b
  | Throw _ => false
  end.

(** The verdict of the matcher on a delivery, in a store: [false] when the
    handler returns before the matcher, or when the matcher throws. *)
Definition verdict (d : Delivery) (st : Store) : bool :=
  match d with
  | AppMention event =>
      hit (shouldAlert (js_or (get_text event) (JString "")) ["mention"] st)
  | Message message =>
      match ev_text message with
      | None => false
      | Some t => hit (shouldAlert (js_or t (JString "")) [] st)
      end
  end.

(** The request a handler builds for a delivery. *)
Definition request_of (d : Delivery) : AlertRequest :=
  match d with
  | AppMention event =>
      {| title := "On-Call Alert";
         message := js_or (js_or (get_text event) (JString ""))
                          (JString "You were mentioned");
         channel := ev_channel event;
         ts := ev_ts event |}
  | Message message =>
      {| title := "On-Call Alert";
         message := js_or (get_text message) (JString "");
         channel := ev_channel message;
         ts := ev_ts message |}
  end.

(** The number of requests the deliveries add to the actuator's log. *)
Definition dispatched (ds : list Delivery) (st : Store) : nat :=
  length (alerts (run ds st)) - length (alerts st).

(** The first keyword, in configured order, that occurs in the text. *)
Definition first_keyword (keywords : list string) (text : string) : option string :=
  List.find (fun k => includes (toLowerCase text) (toLowerCase k)) keywords.

(** The event, as if it came from another channel. *)
Definition with_channel (chan : string) (e : Event) : Event :=
  {| ev_text := ev_text e; ev_channel := chan; ev_ts := ev_ts e |}.

(** ** Vocabulary of the further properties *)

(** A delivery whose text is neither a string nor falsy: the matcher throws
    on it. *)
Definition ill_typed (d : Delivery) : bool :=
  match d with
  | AppMention event =>
      match text_of (get_text event) with Some _ => false | None => true end
  | Message message =>
      match ev_text message with
      | None => false
      | Some t => match text_of t with Some _ => false | None => true end
      end
  end.

(** [arr.join(sep)], the inverse of [split] on pieces without separator. *)
Fixpoint join (sep : ascii) (arr : list string) : string :=
  match arr with
  | [] => EmptyString
  | [piece] => piece
  | piece :: arr' => piece +:+ String sep (join sep arr')
  end.

Definition isComma (c : ascii) : bool := Ascii.eqb c ",".

(** A keyword as the parse leaves it: not empty, trimmed, without comma. *)
Definition tidy (k : string) : bool :=
  negb (isEmpty k) && String.eqb (trim k) k && allUnits (fun c => negb (isComma c)) k.

(** The units that stand for themselves between double quotes in a shell
    command: the printable ASCII units, but for the double quote, the
    dollar sign, the backslash and the backquote. *)
Definition isShellPlain (c : ascii) : bool :=
  let n := N_of_ascii c in
  (33 <=? n) && (n <=? 126)
  && negb ((n =? 34) || (n =? 36) || (n =? 92) || (n =? 96)).

(** The value of a hexadecimal digit. *)
Definition hexValue (c : ascii) : N :=
  let n := N_of_ascii c in
  if n <? 58 then n - 48 else n - 55.

(** The unit at the head of an encoded string, and what follows it. *)
Definition decodeUnit (s : string) : option (ascii * string) :=
  match s with
  | EmptyString => None
  | String c rest =>
      if negb (Ascii.eqb c "%") then Some (c, rest)
      else match rest with
           | String h1 (String h2 rest') =>
               let octet := 16 * hexValue h1 + hexValue h2 in
               if octet <? 128 then Some (ascii_of_N octet, rest')
               else match rest' with
                    | String _ (String h3 (String h4 rest'')) =>
                        let next := 16 * hexValue h3 + hexValue h4 in
                        Some (ascii_of_N (64 * (octet - 192) + (next - 128)), rest'')
                    | _ => None
                    end
           | _ => None
           end
  end.

(** The argument the handlers of [src/index.js] give to the actuator, for a
    request of the log; [ts_text] writes a timestamp the way Slack does. *)
Definition actuator_args (ts_text : Z -> string) (r : AlertRequest) : MacAlert.Args :=
  {| MacAlert.arg_title := JString (title r);
     MacAlert.arg_message := message r;
     MacAlert.arg_channel := Some (channel r);
     MacAlert.arg_ts := Some (ts_text (ts r)) |}.

(** ** Inputs of the examples *)

Definition env_urgent : gmap string string :=
  <["ALERT_KEYWORDS" := "urgent"]> ∅.

Definition env_two_keywords : gmap string string :=
  <["ALERT_KEYWORDS" := "urgent,help"]> ∅.

Definition env_blank : gmap string string :=
  <["ALERT_KEYWORDS" := " , ,,  "]> ∅.

Definition env_cooldown : gmap string string :=
  <["ALERT_KEYWORDS" := "urgent"]> (<["RATE_LIMIT_MINUTES" := "5"]> ∅).

Definition first_call : Event :=
  mkEvent (Some (JString "urgent: projector down")) "it-support" 0.

Definition second_call : Event :=
  mkEvent (Some (JString "still URGENT")) "it-support" 60000000.

Definition env_blocklist : gmap string string :=
  <["ALERT_KEYWORDS" := "urgent"]>
    (<["CHANNEL_BLOCKLIST" := "general"]>
       (<["CHANNEL_ALLOWLIST" := "general,it-support"]> ∅)).

Definition from_general : Event :=
  mkEvent (Some (JString "urgent: the room is locked")) "general" 12.

Definition env_patterns : gmap string string :=
  <["KEYWORD_PATTERNS" := "room\s+\d+"]> ∅.

Definition room_204 : Event :=
  mkEvent (Some (JString "room 204 needs help")) "it-support" 40.

(** * Properties *)

(** ** Strings *)

Lemma append_empty_l (s : string) : "" +:+ s = s.
Proof. reflexivity. Qed.

Lemma append_String (c : ascii) (s t : string) :
  String c s +:+ t = String c (s +:+ t).
Proof. reflexivity. Qed.

Lemma append_empty_r (s : string) : s +:+ "" = s.
Proof.
  induction s as [|c s IH]; [reflexivity | now rewrite append_String, IH].
Qed.

Lemma append_assoc (a b c : string) : (a +:+ b) +:+ c = a +:+ (b +:+ c).
Proof.
  induction a as [|x a IH]; [reflexivity | now rewrite !append_String, IH].
Qed.

Lemma startsWith_spec (s sub : string) :
  startsWith s sub = true <-> exists post, s = sub +:+ post.
Proof.
  revert s. induction sub as [|b sub IH]; intros s.
  - destruct s; simpl; split; eauto.
  - destruct s as [|a s]; simpl.
    + split; [discriminate | intros [post H]; discriminate].
    + rewrite andb_true_iff, IH. split.
      * intros [Hab [post ->]]. apply Ascii.eqb_eq in Hab. subst.
        exists post. now rewrite append_String.
      * intros [post H]. rewrite append_String in H. injection H as -> ->.
        split; [apply Ascii.eqb_refl | eauto].
Qed.

Lemma includes_unfold (s sub : string) :
  includes s sub
  = startsWith s sub
    || match s with
       | EmptyString => false
       | String _ s' => includes s' sub
       end.
Proof. destruct s; reflexivity. Qed.

Lemma includes_spec (s sub : string) :
  includes s sub = true <-> exists pre post, s = pre +:+ sub +:+ post.
Proof.
  induction s as [|a s IH]; rewrite includes_unfold, orb_true_iff, startsWith_spec.
  - split.
    + intros [[post H] | H]; [|discriminate]. exists "", post. exact H.
    + intros [pre [post H]]. destruct pre; [eauto | discriminate].
  - rewrite IH. split.
    + intros [[post H] | [pre [post H]]].
      * exists "", post. exact H.
      * exists (String a pre), post. now rewrite append_String, H.
    + intros [pre [post H]]. destruct pre as [|x pre].
      * left. eauto.
      * right. rewrite append_String in H. injection H as _ H. eauto.
Qed.

Lemma includes_empty_l (sub : string) : includes "" sub = isEmpty sub.
Proof. destruct sub; reflexivity. Qed.

Lemma isEmpty_toLowerCase (s : string) : isEmpty (toLowerCase s) = isEmpty s.
Proof. destruct s; reflexivity. Qed.

Lemma isEmpty_true (s : string) : isEmpty s = true <-> s = "".
Proof. destruct s; simpl; split; congruence. Qed.

Lemma includes_toLowerCase (text k : string) :
  includes (toLowerCase text) (toLowerCase k) = true <-> occurs_ignoring_case k text.
Proof. apply includes_spec. Qed.

Lemma some_true_iff {A} (p : A -> bool) (arr : list A) :
  some p arr = true <-> exists x, In x arr /\ p x = true.
Proof.
  induction arr as [|y arr IH]; simpl.
  - split; [discriminate | intros (x & [] & _)].
  - destruct (p y) eqn:Hy.
    + split; eauto.
    + rewrite IH. split.
      * intros (x & Hx & Hp). eauto.
      * intros (x & [-> | Hx] & Hp); [congruence | eauto].
Qed.

Lemma some_false_iff {A} (p : A -> bool) (arr : list A) :
  some p arr = false <-> forall x, In x arr -> p x = false.
Proof.
  induction arr as [|y arr IH]; simpl.
  - split; [intros _ x [] | reflexivity].
  - destruct (p y) eqn:Hy.
    + split; [discriminate | intros H; rewrite <- Hy; apply H; now left].
    + rewrite IH. split.
      * intros H x [<- | Hx]; auto.
      * intros H x Hx. apply H. now right.
Qed.

(** ** The keyword list *)

Lemma trimStart_blank (p : string) :
  allUnits isWhiteSpace p = true -> trimStart p = "".
Proof.
  induction p as [|c p IH]; simpl; [reflexivity|].
  intros [Hc Hp]%andb_true_iff. rewrite Hc. auto.
Qed.

Lemma trim_blank (p : string) : allUnits isWhiteSpace p = true -> trim p = "".
Proof. intros H. unfold trim. now rewrite trimStart_blank. Qed.

Lemma trimStart_cases (p : string) :
  allUnits isWhiteSpace p = true
  \/ exists c r, trimStart p = String c r /\ isWhiteSpace c = false.
Proof.
  induction p as [|c p IH]; simpl; [now left|].
  destruct (isWhiteSpace c) eqn:Hc; simpl; [exact IH | right; eauto].
Qed.

Lemma trim_not_blank (p : string) :
  allUnits isWhiteSpace p = false -> isEmpty (trim p) = false.
Proof.
  intros H. destruct (trimStart_cases p) as [Hp | (c & r & Hr & Hc)];
    [congruence|].
  unfold trim. rewrite Hr. simpl. now rewrite Hc.
Qed.

Lemma split_not_nil (sep : ascii) (s : string) : split sep s <> [].
Proof.
  destruct s as [|c s]; simpl; [discriminate|].
  destruct (Ascii.eqb c sep); [discriminate|].
  destruct (split sep s); discriminate.
Qed.

(** The pieces are blank exactly when the string is made of separators and
    white space. *)
Lemma split_blank (s : string) :
  forallb (allUnits isWhiteSpace) (split "," s)
  = allUnits (fun c => isWhiteSpace c || Ascii.eqb c ",") s.
Proof.
  induction s as [|c s IH]; simpl; [reflexivity|].
  destruct (Ascii.eqb c ",") eqn:Hc; simpl.
  - now rewrite IH, orb_true_r.
  - rewrite orb_false_r, <- IH.
    destruct (split "," s) as [|piece pieces] eqn:Hs; simpl.
    + now destruct (split_not_nil "," s).
    + now rewrite andb_assoc.
Qed.

Lemma filter_trim_nil (pieces : list string) :
  List.filter Boolean (List.map trim pieces) = []
  <-> forallb (allUnits isWhiteSpace) pieces = true.
Proof.
  induction pieces as [|p pieces IH]; simpl; [tauto|].
  destruct (allUnits isWhiteSpace p) eqn:Hp; simpl.
  - rewrite (trim_blank p Hp). simpl. exact IH.
  - unfold Boolean at 1. rewrite (trim_not_blank p Hp). simpl.
    split; discriminate.
Qed.

Lemma env_or_empty_blank (v : option string) :
  blank_setting (Some (env_or_empty v)) = blank_setting v.
Proof. destruct v as [[|c s]|]; reflexivity. Qed.

(** No keyword is configured exactly when the setting is blank. *)
Lemma parseKeywords_nil (env : gmap string string) :
  parseKeywords env = [] <-> blank_setting (env !! "ALERT_KEYWORDS") = true.
Proof.
  unfold parseKeywords. rewrite filter_trim_nil, split_blank.
  now rewrite <- env_or_empty_blank.
Qed.

(** [filter(Boolean)] leaves no empty keyword. *)
Lemma parseKeywords_not_empty (env : gmap string string) (k : string) :
  In k (parseKeywords env) -> isEmpty k = false.
Proof.
  unfold parseKeywords. intros [_ H]%filter_In.
  unfold Boolean in H. now destruct (isEmpty k).
Qed.

(** Only [ALERT_KEYWORDS] is read. *)
Lemma load_agree (env env' : gmap string string) :
  env !! "ALERT_KEYWORDS" = env' !! "ALERT_KEYWORDS" -> load env = load env'.
Proof. intros H. unfold load, parseKeywords. now rewrite H. Qed.

(** ** The matcher *)

Lemma js_or_idem (v : JsValue) (s : string) :
  text_of v = Some s -> js_or v (JString "") = JString s.
Proof.
  unfold text_of. destruct (js_or v (JString "")); congruence.
Qed.

Lemma text_of_js_or (v : JsValue) :
  text_of (js_or v (JString "")) = text_of v.
Proof.
  unfold text_of, js_or. destruct (truthy v) eqn:Hv; [now rewrite Hv|].
  reflexivity.
Qed.

Lemma text_of_falsy (v : JsValue) : truthy v = false -> text_of v = Some "".
Proof. intros H. unfold text_of, js_or. now rewrite H. Qed.

Lemma text_of_JString (s : string) : text_of (JString s) = Some s.
Proof. now destruct s. Qed.

Section Matcher.

Variable st : Store.
Variable mentions : list string.

(** On a text, [shouldAlert] returns, and leaves the store as it was. *)
Lemma shouldAlert_text (v : JsValue) (s : string) :
  text_of v = Some s ->
  shouldAlert v mentions st
  = (Normal (if (0 <? length mentions)%nat then true
             else keyword_scan (alertKeywords st) s), st).
Proof.
  intros H. unfold shouldAlert, bind. rewrite (js_or_idem v s H). simpl.
  destruct (0 <? length mentions)%nat; reflexivity.
Qed.

(** On anything else the call of [toLowerCase] throws. *)
Lemma shouldAlert_throw (v : JsValue) :
  text_of v = None -> shouldAlert v mentions st = (Throw TypeError, st).
Proof.
  unfold text_of, shouldAlert, bind.
  destruct (js_or v (JString "")); simpl; congruence.
Qed.

End Matcher.

Arguments shouldAlert_text {st mentions} v s _.
Arguments shouldAlert_throw {st mentions} v _.

(** The two ways a call of [shouldAlert] on [v] can end. *)
Ltac matcher_cases v s Hv :=
  destruct (text_of v) as [s|] eqn:Hv;
  [ rewrite ?(shouldAlert_text v s Hv)
  | rewrite ?(shouldAlert_throw v Hv) ].

Lemma keyword_scan_true (keywords : list string) (text : string) :
  keyword_scan keywords text = true
  <-> exists k, In k keywords /\ occurs_ignoring_case k text.
Proof.
  unfold keyword_scan. rewrite some_true_iff.
  split; intros (k & Hk & H); exists k; split; auto;
    now apply includes_toLowerCase.
Qed.

Lemma keyword_scan_empty_text (keywords : list string) :
  (forall k, In k keywords -> isEmpty k = false) ->
  keyword_scan keywords "" = false.
Proof.
  intros H. unfold keyword_scan. apply some_false_iff. intros k Hk.
  change (toLowerCase "") with EmptyString.
  now rewrite includes_empty_l, isEmpty_toLowerCase, (H k Hk).
Qed.

(** ** The handlers *)

Section OneDelivery.

Variable d : Delivery.

Lemma verdict_keywords (st st' : Store) :
  alertKeywords st = alertKeywords st' -> verdict d st = verdict d st'.
Proof.
  intros H. unfold verdict.
  assert (Hm : forall v ms, hit (shouldAlert v ms st) = hit (shouldAlert v ms st')).
  { intros v ms. matcher_cases v s Hv; [|reflexivity].
    unfold hit. simpl. now rewrite H. }
  destruct d as [e | e]; [apply Hm|].
  destruct (ev_text e); [apply Hm | reflexivity].
Qed.

(** A handler adds the request to the log when the verdict is a match, and
    nothing otherwise. *)
Lemma handle_alerts (st : Store) :
  alerts (exec (handle d) st)
  = alerts st ++ (if verdict d st then [request_of d] else []).
Proof.
  destruct d as [e | e]; unfold exec, handle, verdict, request_of.
  - unfold on_app_mention, try_catch, bind.
    set (text := js_or (get_text e) (JString "")).
    matcher_cases text s Hv; simpl; [reflexivity | now rewrite app_nil_r].
  - unfold on_message, get_text, try_catch, bind.
    destruct (ev_text e) as [t|]; [|simpl; now rewrite app_nil_r].
    set (text := js_or t (JString "")).
    matcher_cases text s Hv; unfold hit; simpl; [|now rewrite app_nil_r].
    destruct (keyword_scan (alertKeywords st) s); simpl;
      [reflexivity | now rewrite app_nil_r].
Qed.

(** No handler touches the keyword list. *)
Lemma handle_keywords (st : Store) :
  alertKeywords (exec (handle d) st) = alertKeywords st.
Proof.
  destruct d as [e | e]; unfold exec, handle.
  - unfold on_app_mention, try_catch, bind.
    set (text := js_or (get_text e) (JString "")).
    matcher_cases text s Hv; reflexivity.
  - unfold on_message, try_catch, bind.
    destruct (ev_text e) as [t|]; [|reflexivity].
    set (text := js_or t (JString "")).
    matcher_cases text s Hv; [|reflexivity]. simpl.
    destruct (keyword_scan (alertKeywords st) s); reflexivity.
Qed.

End OneDelivery.

Lemma run_keywords (ds : list Delivery) (st : Store) :
  alertKeywords (run ds st) = alertKeywords st.
Proof.
  revert st. induction ds as [|d ds IH]; intros st; simpl; [reflexivity|].
  now rewrite IH, handle_keywords.
Qed.

(** The log after a run: one request for each delivery the matcher
    accepts, in the order of delivery. *)
Lemma run_alerts (ds : list Delivery) (st : Store) :
  alerts (run ds st)
  = alerts st
    ++ List.map request_of (List.filter (fun d => verdict d st) ds).
Proof.
  revert st. induction ds as [|d ds IH]; intros st; simpl.
  - now rewrite app_nil_r.
  - rewrite IH, handle_alerts.
    rewrite (List.filter_ext (fun d0 => verdict d0 (exec (handle d) st))
                             (fun d0 => verdict d0 st)).
    + destruct (verdict d st); simpl;
        [now rewrite <- app_assoc | now rewrite app_nil_r].
    + intros d0. apply verdict_keywords, handle_keywords.
Qed.

(** * The claims *)

(** ** Mentions *)

(** C1, as stated, fails: [shouldAlert] ends a call with a mention the way
    it ends a call that matches on the keyword [urgent], in the same
    completion and the same store.  Nothing it leaves tells that the match
    came from the mention. *)
Lemma mention_reason_not_returned :
  let st := load env_urgent in
  shouldAlert (JString "urgent") ["mention"] st
  = shouldAlert (JString "urgent") [] st
  /\ ~ exists reason_of : Completion bool * Store -> MatchedRule,
         reason_of (shouldAlert (JString "urgent") ["mention"] st) = ByMention
         /\ reason_of (shouldAlert (JString "urgent") [] st) = ByKeyword "urgent".
Proof.
  split; [reflexivity|].
  intros (reason_of & H1 & H2).
  vm_compute in H1, H2. congruence.
Qed.

(** C1, amended.  Whenever the list of mentions is not empty, [shouldAlert]
    returns [true] at once, and nothing else, whatever the keywords and
    whatever the text, the empty and the absent text included; and the
    handler of [app_mention], which passes a one-element list, hands its
    request to the actuator. *)
Theorem mention_always_alerts
    (st : Store) (event : Event) (s : string) (mentions : list string) :
  text_of (get_text event) = Some s ->
  mentions <> [] ->
  shouldAlert (get_text event) mentions st = (Normal true, st)
  /\ verdict (AppMention event) st = true
  /\ alerts (exec (on_app_mention event) st)
     = alerts st ++ [request_of (AppMention event)].
Proof.
  intros Hs Hm.
  assert (Hlen : (0 <? length mentions)%nat = true).
  { destruct mentions; [congruence | reflexivity]. }
  assert (Hv : verdict (AppMention event) st = true).
  { unfold verdict.
    rewrite (shouldAlert_text _ s) by (now rewrite text_of_js_or).
    reflexivity. }
  split; [|split].
  - rewrite (shouldAlert_text _ s) by exact Hs. now rewrite Hlen.
  - exact Hv.
  - change (on_app_mention event) with (handle (AppMention event)).
    now rewrite handle_alerts, Hv.
Qed.

Lemma mention_always_alerts_witness :
  let event := mkEvent (Some (JString "")) "C01" 7 in
  let st := load env_urgent in
  shouldAlert (get_text event) ["mention"] st = (Normal true, st)
  /\ verdict (AppMention event) st = true
  /\ alerts (exec (on_app_mention event) st)
     = alerts st ++ [request_of (AppMention event)].
Proof.
  apply (mention_always_alerts (load env_urgent)
           (mkEvent (Some (JString "")) "C01" 7) "" ["mention"]).
  - reflexivity.
  - discriminate.
Defined.

(** ** Keywords *)

(** C2, as stated, fails: with the keywords [urgent] and [help], the texts
    "urgent" and "help" match on different keywords, and [shouldAlert] ends
    in the same completion and the same store for both.  Nothing it leaves
    tells the keyword that matched. *)
Lemma keyword_reason_not_recorded :
  ~ exists reason_of : Completion bool * Store -> option string,
      forall text : string,
        reason_of (shouldAlert (JString text) [] (load env_two_keywords))
        = first_keyword (alertKeywords (load env_two_keywords)) text.
Proof.
  intros [reason_of H].
  pose proof (H "urgent") as H1. pose proof (H "help") as H2.
  vm_compute in H1, H2. congruence.
Qed.

(** C2, amended.  On a message without mentions [shouldAlert] returns a
    boolean and nothing else, leaving the store as it was; the boolean is
    [true] exactly when the lowercase form of some configured keyword is a
    stretch of the lowercase form of the text. *)
Theorem keyword_match_iff (st : Store) (text : string) :
  shouldAlert (JString text) [] st
  = (Normal (keyword_scan (alertKeywords st) text), st)
  /\ (keyword_scan (alertKeywords st) text = true
      <-> exists k, In k (alertKeywords st) /\ occurs_ignoring_case k text).
Proof.
  split.
  - now rewrite (shouldAlert_text _ text) by apply text_of_JString.
  - apply keyword_scan_true.
Qed.

(** ** Empty and absent text *)

(** C7.  At any time in the life of the program, whatever [ALERT_KEYWORDS]
    held when it was loaded, the empty text without mentions does not
    match, and the handler of [message] does not call the actuator for
    it. *)
Theorem empty_text_never_matches
    (env : gmap string string) (ds : list Delivery) (chan : string) (t : Z) :
  shouldAlert (JString "") [] (run ds (load env))
  = (Normal false, run ds (load env))
  /\ exec (on_message (mkEvent (Some (JString "")) chan t)) (run ds (load env))
     = run ds (load env).
Proof.
  assert (H : keyword_scan (alertKeywords (run ds (load env))) "" = false).
  { apply keyword_scan_empty_text. rewrite run_keywords.
    apply parseKeywords_not_empty. }
  generalize dependent (run ds (load env)). intros st H.
  split.
  - rewrite (shouldAlert_text _ "") by reflexivity. simpl. now rewrite H.
  - unfold exec, on_message, try_catch, bind. cbn [ev_text].
    rewrite (shouldAlert_text _ "") by reflexivity. simpl. now rewrite H.
Qed.

(** C10.  On [null] and on [undefined], [shouldAlert] does what it does on
    the empty string, and it returns; and the handler of [message] leaves
    the store as it was when the event has no [text] key. *)
Theorem absent_text_is_empty
    (st : Store) (mentions : list string) (chan : string) (t : Z) :
  shouldAlert JNull mentions st = shouldAlert (JString "") mentions st
  /\ shouldAlert JUndefined mentions st = shouldAlert (JString "") mentions st
  /\ (exists b, shouldAlert (JString "") mentions st = (Normal b, st))
  /\ on_message (mkEvent None chan t) st = (Normal tt, st).
Proof.
  split; [reflexivity | split; [reflexivity | split; [|reflexivity]]].
  rewrite (shouldAlert_text _ "") by reflexivity. eauto.
Qed.

(** ** Determinism *)

(** C8.  [shouldAlert] leaves the store as it was, and its completion is a
    function of the text, of the mentions and of the keyword list alone:
    two calls in stores that agree on the keywords end alike. *)
Theorem shouldAlert_deterministic
    (text : JsValue) (mentions : list string) (st st' : Store) :
  alertKeywords st = alertKeywords st' ->
  snd (shouldAlert text mentions st) = st
  /\ fst (shouldAlert text mentions st) = fst (shouldAlert text mentions st')
  /\ shouldAlert text mentions (snd (shouldAlert text mentions st))
     = shouldAlert text mentions st.
Proof.
  intros H. destruct (text_of text) as [s|] eqn:Hv.
  - rewrite !(shouldAlert_text text s Hv). simpl. now rewrite H.
  - now rewrite !(shouldAlert_throw text Hv).
Qed.

Lemma shouldAlert_deterministic_witness :
  let st := load env_urgent in
  let st' := run [Message (mkEvent (Some (JString "URGENT")) "C01" 3)] st in
  snd (shouldAlert (JString "so urgent") [] st) = st
  /\ fst (shouldAlert (JString "so urgent") [] st)
     = fst (shouldAlert (JString "so urgent") [] st')
  /\ shouldAlert (JString "so urgent") []
       (snd (shouldAlert (JString "so urgent") [] st))
     = shouldAlert (JString "so urgent") [] st.
Proof.
  apply (shouldAlert_deterministic (JString "so urgent") []
           (load env_urgent)
           (run [Message (mkEvent (Some (JString "URGENT")) "C01" 3)]
                (load env_urgent))).
  reflexivity.
Defined.

(** ** No keyword *)

(** C9.  When [ALERT_KEYWORDS] is unset, empty, or made of blank entries
    only, no keyword is configured, and at any time in the life of the
    program, after any deliveries, [shouldAlert] returns [false] on every
    text without mentions and the handler of [message] does not call the
    actuator. *)
Theorem blank_keywords_never_alert
    (env : gmap string string) (ds : list Delivery)
    (text : string) (message : Event) :
  blank_setting (env !! "ALERT_KEYWORDS") = true ->
  parseKeywords env = []
  /\ shouldAlert (JString text) [] (run ds (load env))
     = (Normal false, run ds (load env))
  /\ alerts (exec (on_message message) (run ds (load env)))
     = alerts (run ds (load env)).
Proof.
  intros H. apply parseKeywords_nil in H.
  assert (Hk : alertKeywords (run ds (load env)) = []).
  { rewrite run_keywords. exact H. }
  generalize dependent (run ds (load env)). intros st Hk.
  assert (Hs : forall d, verdict (Message d) st = false).
  { intros d. unfold verdict. destruct (ev_text d) as [t|]; [|reflexivity].
    matcher_cases (js_or t (JString "")) s Hv; [|reflexivity].
    unfold hit. simpl. now rewrite Hk. }
  split; [exact H | split].
  - rewrite (shouldAlert_text _ text (text_of_JString text)). simpl.
    now rewrite Hk.
  - change (on_message message) with (handle (Message message)).
    now rewrite handle_alerts, Hs, app_nil_r.
Qed.

Lemma blank_keywords_never_alert_witness :
  let st := run [AppMention from_general;
                 Message (mkEvent (Some (JString "help")) "C01" 0)]
                (load env_blank) in
  parseKeywords env_blank = []
  /\ shouldAlert (JString "urgent help") [] st = (Normal false, st)
  /\ alerts (exec (on_message (mkEvent (Some (JString "urgent help")) "C01" 1)) st)
     = alerts st.
Proof.
  apply (blank_keywords_never_alert env_blank
           [AppMention from_general;
            Message (mkEvent (Some (JString "help")) "C01" 0)]
           "urgent help"
           (mkEvent (Some (JString "urgent help")) "C01" 1)).
  vm_compute. reflexivity.
Defined.

(** ** Cool-down *)

(** C3, as stated, fails: two matching messages of one channel, one minute
    apart, under a cool-down of five minutes in the environment, are both
    handed to the actuator. *)
Lemma cooldown_not_enforced :
  let st := load env_cooldown in
  verdict (Message first_call) st = true
  /\ verdict (Message second_call) st = true
  /\ ev_channel first_call = ev_channel second_call
  /\ (0 <= ev_ts second_call - ev_ts first_call < 5 * 60 * 1000000)%Z
  /\ dispatched [Message first_call; Message second_call] st = 2%nat.
Proof. vm_compute. repeat split; congruence. Qed.

(** C3, amended.  Two deliveries that match are both handed to the
    actuator, in the order of delivery, whatever their timestamps and
    channels: the handlers keep no time of the last alert. *)
Theorem every_match_alerts (st : Store) (d1 d2 : Delivery) :
  verdict d1 st = true ->
  verdict d2 st = true ->
  alerts (run [d1; d2] st) = alerts st ++ [request_of d1; request_of d2]
  /\ dispatched [d1; d2] st = 2%nat.
Proof.
  intros H1 H2.
  assert (H : alerts (run [d1; d2] st)
              = alerts st ++ [request_of d1; request_of d2]).
  { rewrite run_alerts. simpl. now rewrite H1, H2. }
  split; [exact H|].
  unfold dispatched. rewrite H, length_app. simpl. lia.
Qed.

Lemma every_match_alerts_witness :
  alerts (run [Message first_call; Message second_call] (load env_cooldown))
  = alerts (load env_cooldown)
    ++ [request_of (Message first_call); request_of (Message second_call)]
  /\ dispatched [Message first_call; Message second_call] (load env_cooldown)
     = 2%nat.
Proof.
  apply (every_match_alerts (load env_cooldown)
           (Message first_call) (Message second_call)).
  - vm_compute. reflexivity.
  - vm_compute. reflexivity.
Defined.

(** ** Channels *)

(** C4, as stated, fails: with [general] in the block list of the
    environment, a message of that channel reaches the matcher and is handed
    to the actuator. *)
Lemma blocklisted_channel_alerts :
  env_blocklist !! "CHANNEL_BLOCKLIST" = Some "general"
  /\ ev_channel from_general = "general"
  /\ verdict (Message from_general) (load env_blocklist) = true
  /\ alerts (exec (on_message from_general) (load env_blocklist))
     = [ {| title := "On-Call Alert";
            message := JString "urgent: the room is locked";
            channel := "general";
            ts := 12 |} ].
Proof. vm_compute. repeat split. Qed.

(** C4, amended.  No channel is filtered: a setting other than
    [ALERT_KEYWORDS] changes nothing, the verdict on a message does not
    depend on its channel, and the handler hands the message to the actuator
    exactly when the matcher accepts its text. *)
Theorem channel_never_filters
    (env : gmap string string) (name value : string)
    (ds : list Delivery) (e : Event) (chan : string) :
  name <> "ALERT_KEYWORDS" ->
  let st := run ds (load env) in
  run ds (load (<[name := value]> env)) = st
  /\ verdict (Message (with_channel chan e)) st = verdict (Message e) st
  /\ alerts (exec (on_message (with_channel chan e)) st)
     = alerts st
       ++ (if verdict (Message e) st
           then [request_of (Message (with_channel chan e))] else []).
Proof.
  intros Hn st. split; [|split].
  - unfold st. f_equal. apply load_agree. now rewrite lookup_insert_ne.
  - reflexivity.
  - change (on_message (with_channel chan e))
      with (handle (Message (with_channel chan e))).
    now rewrite handle_alerts.
Qed.

Lemma channel_never_filters_witness :
  let st := run [] (load env_urgent) in
  run [] (load (<["CHANNEL_BLOCKLIST" := "general"]> env_urgent)) = st
  /\ verdict (Message (with_channel "it-support" from_general)) st
     = verdict (Message from_general) st
  /\ alerts (exec (on_message (with_channel "it-support" from_general)) st)
     = alerts st
       ++ (if verdict (Message from_general) st
           then [request_of (Message (with_channel "it-support" from_general))]
           else []).
Proof.
  apply (channel_never_filters env_urgent "CHANNEL_BLOCKLIST" "general" []
           from_general "it-support").
  discriminate.
Defined.

(** ** Patterns *)

(** C5, as stated, fails: with the pattern of the second scenario of the
    specification in the environment, the text of that scenario is not
    matched, and the handler leaves the store as it was. *)
Lemma pattern_not_consulted :
  let st := load env_patterns in
  env_patterns !! "KEYWORD_PATTERNS" = Some "room\s+\d+"
  /\ shouldAlert (JString "room 204 needs help") [] st = (Normal false, st)
  /\ exec (on_message room_204) st = st.
Proof. vm_compute. repeat split. Qed.

(** C5, amended.  At any time in the life of the program, on a message
    without mentions in which no keyword occurs, lowercase form in lowercase
    form, [shouldAlert] returns [false] and the handler does nothing,
    whatever patterns the environment holds: keywords are all the matcher
    tests. *)
Theorem no_keyword_no_match
    (env : gmap string string) (patterns : string) (ds : list Delivery)
    (text chan : string) (t : Z) :
  (forall k, In k (parseKeywords env) -> ~ occurs_ignoring_case k text) ->
  let st := run ds (load (<["KEYWORD_PATTERNS" := patterns]> env)) in
  shouldAlert (JString text) [] st = (Normal false, st)
  /\ exec (on_message (mkEvent (Some (JString text)) chan t)) st = st.
Proof.
  intros H st.
  assert (Hst : alertKeywords st = parseKeywords env).
  { unfold st. rewrite run_keywords.
    rewrite (load_agree (<["KEYWORD_PATTERNS" := patterns]> env) env);
      [reflexivity | now rewrite lookup_insert_ne]. }
  clearbody st.
  assert (Hk : keyword_scan (alertKeywords st) text = false).
  { rewrite Hst. apply not_true_is_false.
    intros (k & Hin & Hocc)%keyword_scan_true. exact (H k Hin Hocc). }
  assert (Hs : shouldAlert (JString text) [] st = (Normal false, st)).
  { rewrite (shouldAlert_text _ text) by apply text_of_JString. simpl.
    now rewrite Hk. }
  split; [exact Hs|].
  unfold exec, on_message, try_catch, bind.
  cbn [ev_text].
  rewrite (shouldAlert_text _ text)
    by (rewrite text_of_js_or; apply text_of_JString).
  now rewrite Hk.
Qed.

Lemma no_keyword_no_match_witness :
  let st := run [AppMention from_general; Message first_call]
                (load (<["KEYWORD_PATTERNS" := "room\s+\d+"]> env_two_keywords)) in
  shouldAlert (JString "room 204 needs a hand") [] st = (Normal false, st)
  /\ exec (on_message (mkEvent (Some (JString "room 204 needs a hand")) "it-support" 40)) st
     = st.
Proof.
  apply (no_keyword_no_match env_two_keywords "room\s+\d+"
           [AppMention from_general; Message first_call]
           "room 204 needs a hand" "it-support" 40).
  intros k Hk Hocc. apply includes_toLowerCase in Hocc.
  vm_compute in Hk. destruct Hk as [<- | [<- | []]]; vm_compute in Hocc;
    discriminate.
Defined.

(** ** Totals *)

(** C6, as stated, fails: the program keeps no totals.  The state of the
    module is its keyword list, and a run leaves it as it was: after a run
    with one match it is what it is after a run with none, so that no count
    of the matches can be read from it. *)
Lemma no_totals_are_kept :
  let st := load env_urgent in
  length (List.filter (fun d => verdict d st) [Message first_call]) = 1%nat
  /\ alertKeywords (run [Message first_call] st) = alertKeywords (run [] st)
  /\ ~ exists matches_of : list string -> nat,
         forall ds : list Delivery,
           matches_of (alertKeywords (run ds st))
           = length (List.filter (fun d => verdict d st) ds).
Proof.
  split; [reflexivity | split; [reflexivity|]].
  intros [matches_of H].
  pose proof (H []) as H0. pose proof (H [Message first_call]) as H1.
  vm_compute in H0, H1. congruence.
Qed.

(** C6, amended.  Over any sequence of deliveries, from any store, the
    keyword list is left as it was, and the requests handed to the actuator
    are as many as the deliveries the matcher accepts: no match is
    suppressed, and no delivery is left out of the count. *)
Theorem alerts_equal_matches (ds : list Delivery) (st : Store) :
  alertKeywords (run ds st) = alertKeywords st
  /\ dispatched ds st = length (List.filter (fun d => verdict d st) ds).
Proof.
  split; [apply run_keywords|].
  unfold dispatched. rewrite run_alerts, length_app, length_map. lia.
Qed.

(** * Further properties *)

(** ** The actuator *)

Lemma allUnits_append (p : ascii -> bool) (a b : string) :
  allUnits p (a +:+ b) = allUnits p a && allUnits p b.
Proof.
  induction a as [|c a IH]; [reflexivity|].
  rewrite append_String. simpl. now rewrite IH, andb_assoc.
Qed.

Lemma length_append (a b : string) :
  String.length (a +:+ b) = (String.length a + String.length b)%nat.
Proof.
  induction a as [|c a IH]; [reflexivity|].
  rewrite append_String. simpl. now rewrite IH.
Qed.

(** The 256 units, one by one. *)
Ltac each_unit c := destruct c as [[] [] [] [] [] [] [] []].

Lemma encodeUnit_plain (c : ascii) : allUnits isShellPlain (MacAlert.encodeUnit c) = true.
Proof. each_unit c; reflexivity. Qed.

Lemma encodeURIComponent_plain (s : string) :
  allUnits isShellPlain (MacAlert.encodeURIComponent s) = true.
Proof.
  induction s as [|c s IH]; [reflexivity|]. simpl.
  now rewrite allUnits_append, encodeUnit_plain, IH.
Qed.

Lemma decodeUnit_encodeUnit (c : ascii) (rest : string) :
  decodeUnit (MacAlert.encodeUnit c +:+ rest) = Some (c, rest).
Proof. each_unit c; reflexivity. Qed.

Lemma encodeUnit_length (c : ascii) : (1 <= String.length (MacAlert.encodeUnit c))%nat.
Proof. each_unit c; simpl; lia. Qed.

Lemma encodeURIComponent_append (a b : string) :
  MacAlert.encodeURIComponent (a +:+ b) = MacAlert.encodeURIComponent a +:+ MacAlert.encodeURIComponent b.
Proof.
  induction a as [|c a IH]; [reflexivity|].
  rewrite append_String. simpl. now rewrite IH, append_assoc.
Qed.

Lemma encodeURIComponent_inj (a b : string) :
  MacAlert.encodeURIComponent a = MacAlert.encodeURIComponent b -> a = b.
Proof.
  revert b. induction a as [|c a IH]; intros [|d b] H; simpl in H.
  - reflexivity.
  - apply (f_equal String.length) in H. rewrite length_append in H.
    pose proof (encodeUnit_length d). simpl in H. lia.
  - apply (f_equal String.length) in H. rewrite length_append in H.
    pose proof (encodeUnit_length c). simpl in H. lia.
  - apply (f_equal decodeUnit) in H. rewrite !decodeUnit_encodeUnit in H.
    injection H as -> H. f_equal. now apply IH.
Qed.

Lemma encodeUnit_no_ampersand (c : ascii) :
  allUnits (fun u => negb (Ascii.eqb u "&")) (MacAlert.encodeUnit c) = true.
Proof. each_unit c; reflexivity. Qed.

Lemma encodeURIComponent_no_ampersand (s : string) :
  allUnits (fun u => negb (Ascii.eqb u "&")) (MacAlert.encodeURIComponent s) = true.
Proof.
  induction s as [|c s IH]; [reflexivity|]. simpl.
  now rewrite allUnits_append, encodeUnit_no_ampersand, IH.
Qed.

(** Two strings without ampersand, each followed by an ampersand, are cut
    at the same place. *)
Lemma cut_at_ampersand (x y r1 r2 : string) :
  allUnits (fun u => negb (Ascii.eqb u "&")) x = true ->
  allUnits (fun u => negb (Ascii.eqb u "&")) y = true ->
  x +:+ String "&" r1 = y +:+ String "&" r2 ->
  x = y /\ r1 = r2.
Proof.
  revert y. induction x as [|c x IH]; intros [|d y] Hx Hy H.
  - injection H as H. auto.
  - rewrite append_String in H. injection H as <- _. discriminate Hy.
  - rewrite append_String in H. injection H as -> _. discriminate Hx.
  - rewrite !append_String in H. injection H as -> H.
    simpl in Hx, Hy.
    apply andb_true_iff in Hx as [_ Hx]. apply andb_true_iff in Hy as [_ Hy].
    destruct (IH y Hx Hy H) as [-> ->]. auto.
Qed.

Lemma append_inj_r (p a b : string) : p +:+ a = p +:+ b -> a = b.
Proof.
  induction p as [|c p IH]; [auto|].
  rewrite !append_String. intros H. injection H as H. auto.
Qed.

Lemma teamParam_plain (env : gmap string string) :
  allUnits isShellPlain (MacAlert.teamParam env) = true.
Proof.
  unfold MacAlert.teamParam.
  destruct (isEmpty (env_or_empty (env !! "SLACK_TEAM_ID"))); [reflexivity|].
  now rewrite !allUnits_append, encodeURIComponent_plain.
Qed.

(** X4.  The deep link is made of units that stand for themselves between the
    double quotes of the command that opens it, whatever the channel, the
    timestamp and the team identifier hold. *)
Theorem deep_link_is_shell_plain (env : gmap string string) (channel ts : string) :
  allUnits isShellPlain (MacAlert.slackDeepLink env channel ts) = true.
Proof.
  unfold MacAlert.slackDeepLink.
  now rewrite !allUnits_append, teamParam_plain, !encodeURIComponent_plain.
Qed.

(** X5.  Distinct strings have distinct encodings, and the deep link tells the
    channel and the timestamp it was made for. *)
Theorem deep_link_tells_thread
    (env : gmap string string) (channel ts channel' ts' : string) :
  MacAlert.slackDeepLink env channel ts = MacAlert.slackDeepLink env channel' ts' ->
  channel = channel' /\ ts = ts'.
Proof.
  unfold MacAlert.slackDeepLink. intros H.
  do 3 apply append_inj_r in H.
  change ("&message=" +:+ MacAlert.encodeURIComponent ts)
    with (String "&" ("message=" +:+ MacAlert.encodeURIComponent ts)) in H.
  change ("&message=" +:+ MacAlert.encodeURIComponent ts')
    with (String "&" ("message=" +:+ MacAlert.encodeURIComponent ts')) in H.
  apply cut_at_ampersand in H as [Hc Ht];
    try apply encodeURIComponent_no_ampersand.
  apply append_inj_r in Ht.
  split; now apply encodeURIComponent_inj.
Qed.

Lemma deep_link_tells_thread_witness :
  "C01 A&B" = "C01 " +:+ "A&B" /\ "17.000100" = "17." +:+ "000100".
Proof.
  apply (deep_link_tells_thread ∅ "C01 A&B" "17.000100"
           ("C01 " +:+ "A&B") ("17." +:+ "000100")).
  reflexivity.
Defined.

Lemma encodeURIComponent_length (s : string) :
  (String.length s <= String.length (MacAlert.encodeURIComponent s))%nat.
Proof.
  induction s as [|c s IH]; simpl; [lia|].
  rewrite length_append. pose proof (encodeUnit_length c). lia.
Qed.

Lemma encodeUnit_escaped (c : ascii) :
  MacAlert.isUnreserved c = false ->
  exists h1 h2 r, MacAlert.encodeUnit c = String "%" (String h1 (String h2 r)).
Proof.
  intros H. unfold MacAlert.encodeUnit. rewrite H.
  destruct (N_of_ascii c <? 128); unfold MacAlert.percent; eauto.
Qed.

(** The strings that come out of [encodeURIComponent] as they went in are
    those made of unreserved units. *)
Lemma encodeURIComponent_fixes_unreserved (s : string) :
  MacAlert.encodeURIComponent s = s <-> allUnits MacAlert.isUnreserved s = true.
Proof.
  induction s as [|c s IH]; simpl; [tauto|].
  destruct (MacAlert.isUnreserved c) eqn:Hc; simpl.
  - unfold MacAlert.encodeUnit. rewrite Hc, append_String, append_empty_l.
    rewrite <- IH. split; [now intros [= ->] | now intros ->].
  - split; [|discriminate]. intros H.
    destruct (encodeUnit_escaped c Hc) as (h1 & h2 & r & He).
    rewrite He, !append_String in H. injection H as _ H.
    apply (f_equal String.length) in H. simpl in H.
    rewrite length_append in H.
    pose proof (encodeURIComponent_length s). lia.
Qed.

(** X6.  A channel and a timestamp made of letters, digits and the marks
    [- _ . ! ~ * ' ( )] stand in the deep link as they are. *)
Theorem plain_thread_stands_as_is
    (env : gmap string string) (channel ts : string) :
  allUnits MacAlert.isUnreserved channel = true ->
  allUnits MacAlert.isUnreserved ts = true ->
  MacAlert.slackDeepLink env channel ts
  = "slack://channel?" +:+ MacAlert.teamParam env
    +:+ "id=" +:+ channel +:+ "&message=" +:+ ts.
Proof.
  intros Hc Ht. unfold MacAlert.slackDeepLink.
  apply encodeURIComponent_fixes_unreserved in Hc, Ht.
  now rewrite Hc, Ht.
Qed.

Lemma plain_thread_stands_as_is_witness :
  MacAlert.slackDeepLink (<["SLACK_TEAM_ID" := "T01234567"]> ∅)
    "C01ABCDEF" "1712345678.000100"
  = "slack://channel?"
    +:+ MacAlert.teamParam (<["SLACK_TEAM_ID" := "T01234567"]> ∅)
    +:+ "id=" +:+ "C01ABCDEF" +:+ "&message=" +:+ "1712345678.000100".
Proof.
  apply (plain_thread_stands_as_is (<["SLACK_TEAM_ID" := "T01234567"]> ∅)
           "C01ABCDEF" "1712345678.000100"); reflexivity.
Defined.

(** X1.  On the strings of this development, whose units are below U+0100
    and on which [encodeURIComponent] cannot throw: whatever commands fail,
    the promise of [triggerMacAlert] is fulfilled and every step has been
    attempted: when a channel and a timestamp are given, the notification,
    the beep, the call to the front, and the opening of the deep link of
    that channel and timestamp, in that order, after what the log held. *)
Theorem thread_is_opened
    (fails : string -> bool) (env : gmap string string)
    (ttl msg : JsValue) (channel ts : string) (log : list MacAlert.Action) :
  channel <> "" ->
  ts <> "" ->
  exists n,
    MacAlert.triggerMacAlert fails env
      (MacAlert.mkArgs ttl msg (Some channel) (Some ts)) log
    = (MacAlert.Fulfilled,
       log ++ [MacAlert.Notify n;
               MacAlert.Exec MacAlert.beep_command;
               MacAlert.Exec MacAlert.front_command;
               MacAlert.Exec
                 (MacAlert.open_command (MacAlert.slackDeepLink env channel ts))]).
Proof.
  intros Hc Ht. eexists.
  unfold MacAlert.triggerMacAlert, MacAlert.and_then, MacAlert.attempt,
    MacAlert.execAsync, MacAlert.notifier_notify.
  cbn [MacAlert.arg_channel MacAlert.arg_ts].
  destruct channel; [congruence|]. destruct ts; [congruence|].
  cbn [isEmpty negb andb].
  rewrite <- !app_assoc. reflexivity.
Qed.

Lemma thread_is_opened_witness :
  exists n,
    MacAlert.triggerMacAlert (fun _ => true) ∅
      (MacAlert.mkArgs JUndefined JUndefined (Some "C01") (Some "17.000100")) []
    = (MacAlert.Fulfilled,
       [] ++ [MacAlert.Notify n;
              MacAlert.Exec MacAlert.beep_command;
              MacAlert.Exec MacAlert.front_command;
              MacAlert.Exec
                (MacAlert.open_command (MacAlert.slackDeepLink ∅ "C01" "17.000100"))]).
Proof.
  apply (thread_is_opened (fun _ => true) ∅ JUndefined JUndefined
           "C01" "17.000100" []); discriminate.
Defined.

(** X2.  Without a channel or without a timestamp, absent or empty, no link is
    opened: the notification, the beep and the call to the front are all
    that happens, whatever commands fail. *)
Theorem no_thread_no_link
    (fails : string -> bool) (env : gmap string string)
    (args : MacAlert.Args) (log : list MacAlert.Action) :
  MacAlert.truthy_string (MacAlert.arg_channel args)
  && MacAlert.truthy_string (MacAlert.arg_ts args) = false ->
  exists n,
    MacAlert.triggerMacAlert fails env args log
    = (MacAlert.Fulfilled,
       log ++ [MacAlert.Notify n;
               MacAlert.Exec MacAlert.beep_command;
               MacAlert.Exec MacAlert.front_command]).
Proof.
  intros H.
  unfold MacAlert.triggerMacAlert, MacAlert.and_then, MacAlert.attempt,
    MacAlert.execAsync, MacAlert.notifier_notify.
  destruct (MacAlert.arg_channel args) as [c|], (MacAlert.arg_ts args) as [t|];
    simpl in H; try rewrite H; unfold MacAlert.nothing;
    eexists; rewrite <- !app_assoc; reflexivity.
Qed.

Lemma no_thread_no_link_witness :
  exists n,
    MacAlert.triggerMacAlert (fun _ => false) ∅
      (MacAlert.mkArgs (JString "Test On-Call Alert")
         (JString "This is a local test of the alert system") None None) []
    = (MacAlert.Fulfilled,
       [] ++ [MacAlert.Notify n;
              MacAlert.Exec MacAlert.beep_command;
              MacAlert.Exec MacAlert.front_command]).
Proof.
  apply (no_thread_no_link (fun _ => false) ∅
           (MacAlert.mkArgs (JString "Test On-Call Alert")
              (JString "This is a local test of the alert system") None None) []).
  reflexivity.
Defined.

(** X3.  The notification never shows an empty title, an empty message or an
    empty sound, and names the channel only when there is one. *)
Theorem notification_is_filled
    (fails : string -> bool) (env : gmap string string)
    (args : MacAlert.Args) (n : MacAlert.Notification) :
  In (MacAlert.Notify n) (snd (MacAlert.triggerMacAlert fails env args [])) ->
  truthy (MacAlert.n_title n) = true
  /\ truthy (MacAlert.n_message n) = true
  /\ isEmpty (MacAlert.n_sound n) = false
  /\ (MacAlert.n_subtitle n = None
      <-> MacAlert.truthy_string (MacAlert.arg_channel args) = false).
Proof.
  intros H.
  assert (Hn : n = {| MacAlert.n_title := js_or (MacAlert.arg_title args) (JString "On-Call Alert");
                      MacAlert.n_message :=
                        js_or (MacAlert.arg_message args)
                              (JString "You have a new on-call mention");
                      MacAlert.n_subtitle := MacAlert.subtitle (MacAlert.arg_channel args);
                      MacAlert.n_sound := MacAlert.DEFAULT_SOUND env;
                      MacAlert.n_wait := false |}).
  { unfold MacAlert.triggerMacAlert, MacAlert.and_then, MacAlert.attempt,
      MacAlert.execAsync, MacAlert.notifier_notify in H.
    destruct (MacAlert.arg_channel args) as [c|], (MacAlert.arg_ts args) as [t|];
      cbn [app snd fst] in H;
      try destruct (negb (isEmpty c) && negb (isEmpty t));
      unfold MacAlert.nothing in H; cbn [app snd fst] in H;
      repeat (destruct H as [H | H]; [congruence|]); destruct H. }
  subst n. cbn [MacAlert.n_title MacAlert.n_message MacAlert.n_sound MacAlert.n_subtitle].
  repeat split.
  - unfold js_or. now destruct (truthy (MacAlert.arg_title args)) eqn:E.
  - unfold js_or. now destruct (truthy (MacAlert.arg_message args)) eqn:E.
  - unfold MacAlert.DEFAULT_SOUND.
    now destruct (isEmpty (env_or_empty (env !! "ALERT_SOUND"))) eqn:E.
  - unfold MacAlert.subtitle, MacAlert.truthy_string.
    destruct (MacAlert.arg_channel args) as [[|c r]|]; simpl; congruence.
  - unfold MacAlert.subtitle, MacAlert.truthy_string.
    destruct (MacAlert.arg_channel args) as [[|c r]|]; simpl; congruence.
Qed.

Lemma notification_is_filled_witness :
  let n := {| MacAlert.n_title := JString "On-Call Alert";
              MacAlert.n_message := JString "You have a new on-call mention";
              MacAlert.n_subtitle := None;
              MacAlert.n_sound := "Submarine";
              MacAlert.n_wait := false |} in
  let args := MacAlert.mkArgs (JString "") JUndefined (Some "") (Some "17.000100") in
  truthy (MacAlert.n_title n) = true
  /\ truthy (MacAlert.n_message n) = true
  /\ isEmpty (MacAlert.n_sound n) = false
  /\ (MacAlert.n_subtitle n = None
      <-> MacAlert.truthy_string (MacAlert.arg_channel args) = false).
Proof.
  apply (notification_is_filled (fun _ => false) ∅
           (MacAlert.mkArgs (JString "") JUndefined (Some "") (Some "17.000100"))
           {| MacAlert.n_title := JString "On-Call Alert";
              MacAlert.n_message := JString "You have a new on-call mention";
              MacAlert.n_subtitle := None;
              MacAlert.n_sound := "Submarine";
              MacAlert.n_wait := false |}).
  vm_compute. auto.
Defined.

(** ** The keyword list, again *)

Lemma allUnits_trimStart (p : ascii -> bool) (s : string) :
  allUnits p s = true -> allUnits p (trimStart s) = true.
Proof.
  induction s as [|c s IH]; simpl; [auto|].
  intros [Hc Hs]%andb_true_iff.
  destruct (isWhiteSpace c); [auto | simpl; now rewrite Hc, Hs].
Qed.

Lemma allUnits_trimEnd (p : ascii -> bool) (s : string) :
  allUnits p s = true -> allUnits p (trimEnd s) = true.
Proof.
  induction s as [|c s IH]; simpl; [auto|].
  intros [Hc Hs]%andb_true_iff.
  destruct (isWhiteSpace c && isEmpty (trimEnd s)); [reflexivity|].
  simpl. now rewrite Hc, IH.
Qed.

Lemma trimEnd_trimEnd (s : string) : trimEnd (trimEnd s) = trimEnd s.
Proof.
  induction s as [|c s IH]; simpl; [reflexivity|].
  destruct (isWhiteSpace c && isEmpty (trimEnd s)) eqn:E; [reflexivity|].
  simpl. now rewrite IH, E.
Qed.

(** What [trim] returns is trimmed. *)
Lemma trim_trim (s : string) : trim (trim s) = trim s.
Proof.
  unfold trim.
  destruct (trimStart_cases s) as [Hs | (c & r & Hr & Hc)].
  - now rewrite (trimStart_blank s Hs).
  - rewrite Hr. simpl. rewrite Hc. simpl. rewrite Hc. simpl.
    now rewrite Hc, trimEnd_trimEnd.
Qed.

Lemma split_no_separator (s : string) :
  forallb (allUnits (fun c => negb (isComma c))) (split "," s) = true.
Proof.
  induction s as [|c s IH]; simpl; [reflexivity|].
  fold (isComma c). destruct (isComma c) eqn:Hc; simpl; [exact IH|].
  destruct (split "," s) as [|piece pieces]; simpl in *; now rewrite Hc.
Qed.

Lemma split_plain (x : string) :
  allUnits (fun c => negb (isComma c)) x = true -> split "," x = [x].
Proof.
  induction x as [|c x IH]; simpl; [reflexivity|].
  fold (isComma c). intros [Hc Hx]%andb_true_iff.
  apply negb_true_iff in Hc. now rewrite Hc, (IH Hx).
Qed.

Lemma split_piece (x r : string) :
  allUnits (fun c => negb (isComma c)) x = true ->
  split "," (x +:+ String "," r) = x :: split "," r.
Proof.
  induction x as [|c x IH]; [reflexivity|].
  rewrite append_String. simpl. fold (isComma c).
  intros [Hc Hx]%andb_true_iff.
  apply negb_true_iff in Hc. now rewrite Hc, (IH Hx).
Qed.

(** [split] undoes [join] on pieces without separator. *)
Lemma split_join (arr : list string) :
  arr <> [] ->
  forallb (allUnits (fun c => negb (isComma c))) arr = true ->
  split "," (join "," arr) = arr.
Proof.
  induction arr as [|x arr IH]; [congruence|].
  intros _ [Hx Harr]%andb_true_iff.
  destruct arr as [|y arr]; [now apply split_plain|].
  change (join "," (x :: y :: arr)) with (x +:+ String "," (join "," (y :: arr))).
  rewrite (split_piece _ _ Hx). f_equal. now apply IH.
Qed.

Lemma tidy_spec (k : string) :
  tidy k = true
  <-> isEmpty k = false /\ trim k = k
      /\ allUnits (fun c => negb (isComma c)) k = true.
Proof.
  unfold tidy. rewrite !andb_true_iff, negb_true_iff, String.eqb_eq. tauto.
Qed.

(** X7.  Every keyword of the list is not empty, trimmed, and without comma. *)
Theorem keywords_are_tidy (env : gmap string string) (k : string) :
  In k (parseKeywords env) -> tidy k = true.
Proof.
  unfold parseKeywords. intros [Hin Hb]%filter_In.
  apply in_map_iff in Hin as (piece & <- & Hp).
  apply tidy_spec. repeat split.
  - unfold Boolean in Hb. now apply negb_true_iff.
  - apply trim_trim.
  - pose proof (split_no_separator (env_or_empty (env !! "ALERT_KEYWORDS"))) as H.
    rewrite forallb_forall in H.
    unfold trim. apply allUnits_trimEnd, allUnits_trimStart, H, Hp.
Qed.

Lemma keywords_are_tidy_witness : tidy "help me" = true.
Proof.
  apply (keywords_are_tidy (<["ALERT_KEYWORDS" := " urgent ,, help me "]> ∅) "help me").
  vm_compute. auto.
Defined.

Lemma join_not_empty (arr : list string) (x : string) :
  isEmpty x = false -> isEmpty (join "," (x :: arr)) = false.
Proof. destruct x; [discriminate|]. destruct arr; reflexivity. Qed.

(** X8.  A list of tidy keywords, written as a setting with commas between
    them, is parsed into that list: every such list can be configured, and
    the parse of a list written back is the list. *)
Theorem keywords_round_trip (env : gmap string string) (keywords : list string) :
  forallb tidy keywords = true ->
  parseKeywords (<["ALERT_KEYWORDS" := join "," keywords]> env) = keywords.
Proof.
  intros H. unfold parseKeywords. rewrite lookup_insert_eq.
  destruct keywords as [|x keywords]; [reflexivity|].
  assert (Hall : forall k, In k (x :: keywords) ->
            isEmpty k = false /\ trim k = k
            /\ allUnits (fun c => negb (isComma c)) k = true).
  { intros k Hk. apply tidy_spec. rewrite forallb_forall in H. now apply H. }
  assert (Hx : isEmpty x = false) by (apply Hall; now left).
  unfold env_or_empty. rewrite (join_not_empty keywords x Hx).
  rewrite split_join; [|discriminate|].
  - rewrite (map_ext_in trim (fun k => k)) by (intros k Hk; now apply Hall).
    rewrite map_id. apply forallb_filter_id.
    apply forallb_forall. intros k Hk. unfold Boolean.
    apply negb_true_iff. now apply Hall.
  - apply forallb_forall. intros k Hk. now apply Hall.
Qed.

Lemma keywords_round_trip_witness :
  parseKeywords (<["ALERT_KEYWORDS" := join "," ["@help"; "projector down"]]> ∅)
  = ["@help"; "projector down"].
Proof.
  apply (keywords_round_trip ∅ ["@help"; "projector down"]).
  reflexivity.
Defined.

(** X9.  No keyword is configured exactly when [ALERT_KEYWORDS] is unset or made
    of commas and white space: one unit of another kind gives at least one
    keyword. *)
Theorem no_keyword_iff_blank (env : gmap string string) :
  parseKeywords env = [] <-> blank_setting (env !! "ALERT_KEYWORDS") = true.
Proof.
  unfold parseKeywords. rewrite filter_trim_nil, split_blank.
  now rewrite <- env_or_empty_blank.
Qed.

(** ** The matcher, again *)

Lemma some_map {A B} (f : A -> B) (p : B -> bool) (arr : list A) :
  some p (List.map f arr) = some (fun x => p (f x)) arr.
Proof.
  induction arr as [|x arr IH]; simpl; [reflexivity | now rewrite IH].
Qed.

Lemma some_app {A} (p : A -> bool) (arr more : list A) :
  some p (arr ++ more) = some p arr || some p more.
Proof.
  induction arr as [|x arr IH]; simpl; [reflexivity|].
  destruct (p x); [reflexivity | exact IH].
Qed.

(** X10.  The case of letters counts nowhere: two texts that are the same once
    lowered, against two keyword lists that are the same once lowered, get
    the same answer. *)
Theorem case_never_matters
    (t1 t2 : string) (mentions : list string) (st1 st2 : Store) :
  toLowerCase t1 = toLowerCase t2 ->
  List.map toLowerCase (alertKeywords st1) = List.map toLowerCase (alertKeywords st2) ->
  fst (shouldAlert (JString t1) mentions st1)
  = fst (shouldAlert (JString t2) mentions st2).
Proof.
  intros Ht Hk.
  rewrite (shouldAlert_text (JString t1) t1 (text_of_JString t1)).
  rewrite (shouldAlert_text (JString t2) t2 (text_of_JString t2)).
  cbn [fst]. unfold keyword_scan.
  rewrite <- (some_map toLowerCase (includes (toLowerCase t1))).
  rewrite <- (some_map toLowerCase (includes (toLowerCase t2))).
  now rewrite Ht, Hk.
Qed.

Lemma case_never_matters_witness :
  fst (shouldAlert (JString "This is URGENT") [] (load env_urgent))
  = fst (shouldAlert (JString "this is urgent") []
           (load (<["ALERT_KEYWORDS" := "Urgent"]> ∅))).
Proof.
  apply (case_never_matters "This is URGENT" "this is urgent" []
           (load env_urgent) (load (<["ALERT_KEYWORDS" := "Urgent"]> ∅)));
    reflexivity.
Defined.

(** X11.  A match is kept when the text gives way to one whose lowercase
    form holds the lowercase form of the first, and when keywords are added
    to the list. *)
Theorem match_is_monotone
    (text text' pre post : string) (st st' : Store) (more : list string) :
  alertKeywords st' = alertKeywords st ++ more ->
  toLowerCase text' = pre +:+ toLowerCase text +:+ post ->
  shouldAlert (JString text) [] st = (Normal true, st) ->
  shouldAlert (JString text') [] st' = (Normal true, st').
Proof.
  intros Hk Ht H.
  rewrite (shouldAlert_text (JString text) text (text_of_JString text)) in H.
  rewrite (shouldAlert_text _ _ (text_of_JString text')).
  cbn [length Nat.ltb Nat.leb] in *.
  injection H as H. f_equal. f_equal.
  apply keyword_scan_true in H as (k & Hin & a & b & Hab).
  apply keyword_scan_true. exists k. split.
  - rewrite Hk. apply in_or_app. now left.
  - exists (pre +:+ a), (b +:+ post).
    now rewrite Ht, Hab, !append_assoc.
Qed.

Lemma match_is_monotone_witness :
  shouldAlert (JString "> URGENT (quoted)") [] (load env_two_keywords)
  = (Normal true, load env_two_keywords).
Proof.
  apply (match_is_monotone "Urgent" "> URGENT (quoted)" "> " " (quoted)"
           (load env_urgent) (load env_two_keywords) ["help"]);
    reflexivity.
Defined.

(** ** The handlers, again *)

Lemma handle_completes (d : Delivery) (st : Store) :
  fst (handle d st) = Normal tt.
Proof.
  destruct d as [e | e]; unfold handle.
  - unfold on_app_mention, try_catch, bind.
    set (text := js_or (get_text e) (JString "")).
    matcher_cases text s Hv; reflexivity.
  - unfold on_message, try_catch, bind.
    destruct (ev_text e) as [t|]; [|reflexivity].
    set (text := js_or t (JString "")).
    matcher_cases text s Hv; [|reflexivity]. simpl.
    destruct (keyword_scan (alertKeywords st) s); reflexivity.
Qed.

Lemma handle_logged (d : Delivery) (st : Store) :
  logged (exec (handle d) st)
  = logged st ++ (if ill_typed d then [TypeError] else []).
Proof.
  destruct d as [e | e]; unfold exec, handle, ill_typed.
  - unfold on_app_mention, try_catch, bind.
    rewrite <- (text_of_js_or (get_text e)).
    set (text := js_or (get_text e) (JString "")).
    matcher_cases text s Hv; simpl; [now rewrite app_nil_r | reflexivity].
  - unfold on_message, try_catch, bind.
    destruct (ev_text e) as [t|]; [|simpl; now rewrite app_nil_r].
    rewrite <- (text_of_js_or t).
    set (text := js_or t (JString "")).
    matcher_cases text s Hv; simpl; [|reflexivity].
    destruct (keyword_scan (alertKeywords st) s); simpl; now rewrite app_nil_r.
Qed.

Lemma ill_typed_no_verdict (d : Delivery) (st : Store) :
  ill_typed d = true -> verdict d st = false.
Proof.
  destruct d as [e | e]; unfold ill_typed, verdict.
  - rewrite <- (text_of_js_or (get_text e)).
    set (text := js_or (get_text e) (JString "")).
    matcher_cases text s Hv; [discriminate | reflexivity].
  - destruct (ev_text e) as [t|]; [|discriminate].
    rewrite <- (text_of_js_or t).
    set (text := js_or t (JString "")).
    matcher_cases text s Hv; [discriminate | reflexivity].
Qed.

(** X12.  No handler lets an exception out, and none touches the keyword
    list.  A request is raised exactly when the matcher accepts the
    delivery.  On a delivery whose text is not a text the matcher throws:
    no request is raised, be it for a mention, and the [TypeError] is
    logged. *)
Theorem handlers_contain_errors (d : Delivery) (st : Store) :
  fst (handle d st) = Normal tt
  /\ alertKeywords (exec (handle d) st) = alertKeywords st
  /\ alerts (exec (handle d) st)
     = alerts st ++ (if verdict d st then [request_of d] else [])
  /\ (ill_typed d = false
      \/ (verdict d st = false
          /\ logged (exec (handle d) st) = logged st ++ [TypeError])).
Proof.
  split; [apply handle_completes|].
  split; [apply handle_keywords|].
  split; [apply handle_alerts|].
  destruct (ill_typed d) eqn:Hd; [right | now left].
  split; [now apply ill_typed_no_verdict|].
  now rewrite handle_logged, Hd.
Qed.

(** X13.  After any run the keyword list is what it was, the requests raised
    are those of the deliveries the matcher accepts, in the order of
    delivery, after the requests the log held, and the log of errors has
    only grown, by one error at least for each delivery whose text is not a
    text. *)
Theorem run_appends_only (ds : list Delivery) (st : Store) :
  alertKeywords (run ds st) = alertKeywords st
  /\ alerts (run ds st)
     = alerts st ++ List.map request_of (List.filter (fun d => verdict d st) ds)
  /\ exists errors,
       logged (run ds st) = logged st ++ errors
       /\ (length (List.filter ill_typed ds) <= length errors)%nat.
Proof.
  split; [apply run_keywords|]. split; [apply run_alerts|].
  exists (List.map (fun _ => TypeError) (List.filter ill_typed ds)).
  split; [|now rewrite length_map].
  revert st. induction ds as [|d ds IH]; intros st; simpl.
  - now rewrite app_nil_r.
  - rewrite IH, handle_logged.
    destruct (ill_typed d); simpl; [now rewrite <- app_assoc | now rewrite app_nil_r].
Qed.

(** The request of an accepted delivery, when no keyword is empty. *)
Lemma accepted_request (d : Delivery) (st : Store) :
  (forall k, In k (alertKeywords st) -> isEmpty k = false) ->
  verdict d st = true ->
  title (request_of d) = "On-Call Alert"
  /\ exists s, message (request_of d) = JString s /\ isEmpty s = false.
Proof.
  intros Hk Hv. destruct d as [e | e]; unfold verdict in Hv; simpl.
  - split; [reflexivity|].
    set (text := js_or (get_text e) (JString "")) in *.
    destruct (text_of text) as [s|] eqn:Ht;
      [|now rewrite (shouldAlert_throw text Ht) in Hv].
    assert (Hs : text = JString s).
    { unfold text in *. rewrite text_of_js_or in Ht.
      now apply js_or_idem. }
    rewrite Hs. destruct s as [|c s]; simpl; eauto.
  - split; [reflexivity|].
    unfold get_text. destruct (ev_text e) as [t|]; [|discriminate].
    set (text := js_or t (JString "")) in *.
    destruct (text_of text) as [s|] eqn:Ht;
      [|now rewrite (shouldAlert_throw text Ht) in Hv].
    rewrite (shouldAlert_text text s Ht) in Hv. unfold hit in Hv. simpl in Hv.
    unfold text in *. rewrite text_of_js_or in Ht.
    rewrite (js_or_idem t s Ht). exists s. split; [reflexivity|].
    destruct s; [|reflexivity].
    now rewrite (keyword_scan_empty_text _ Hk) in Hv.
Qed.

(** X14.  Every request raised in the life of the program bears the title
    "On-Call Alert" and a message that is a string and is not empty. *)
Theorem requests_are_filled
    (env : gmap string string) (ds : list Delivery) (r : AlertRequest) :
  In r (alerts (run ds (load env))) ->
  title r = "On-Call Alert"
  /\ exists s, message r = JString s /\ isEmpty s = false.
Proof.
  rewrite run_alerts. simpl.
  intros (d & <- & [_ Hv]%filter_In)%in_map_iff.
  apply (accepted_request d (load env)); [|exact Hv].
  apply parseKeywords_not_empty.
Qed.

Lemma requests_are_filled_witness :
  title (mkAlert "On-Call Alert" (JString "You were mentioned") "general" 9)
  = "On-Call Alert"
  /\ exists s,
       message (mkAlert "On-Call Alert" (JString "You were mentioned") "general" 9)
       = JString s /\ isEmpty s = false.
Proof.
  apply (requests_are_filled env_urgent
           [Message first_call; AppMention (mkEvent None "general" 9)]
           (mkAlert "On-Call Alert" (JString "You were mentioned") "general" 9)).
  vm_compute. auto.
Defined.

(** ** The handlers and the actuator together *)

(** X15.  For every request raised in the life of the program, the actuator shows
    a notification with the title "On-Call Alert" and with the message of
    the request, which is not empty: its own default message is never
    shown.  The notification names the channel as the request does. *)
Theorem alert_shows_the_message
    (ts_text : Z -> string) (fails : string -> bool)
    (env : gmap string string) (ds : list Delivery) (r : AlertRequest)
    (log : list MacAlert.Action) :
  In r (alerts (run ds (load env))) ->
  exists s more,
    message r = JString s
    /\ isEmpty s = false
    /\ snd (MacAlert.triggerMacAlert fails env (actuator_args ts_text r) log)
       = log
         ++ MacAlert.Notify
              {| MacAlert.n_title := JString "On-Call Alert";
                 MacAlert.n_message := JString s;
                 MacAlert.n_subtitle := MacAlert.subtitle (Some (channel r));
                 MacAlert.n_sound := MacAlert.DEFAULT_SOUND env;
                 MacAlert.n_wait := false |}
            :: more.
Proof.
  rewrite run_alerts. simpl.
  intros (d & <- & [_ Hv]%filter_In)%in_map_iff.
  destruct (accepted_request d (load env)) as (Ht & s & Hs & Hne);
    [apply parseKeywords_not_empty | exact Hv |].
  exists s.
  exists (MacAlert.Exec MacAlert.beep_command
          :: MacAlert.Exec MacAlert.front_command
          :: (if negb (isEmpty (channel (request_of d)))
                 && negb (isEmpty (ts_text (ts (request_of d))))
              then [MacAlert.Exec
                      (MacAlert.open_command
                         (MacAlert.slackDeepLink env (channel (request_of d))
                            (ts_text (ts (request_of d)))))]
              else [])).
  split; [exact Hs|]. split; [exact Hne|].
  unfold MacAlert.triggerMacAlert, MacAlert.and_then, MacAlert.attempt,
    MacAlert.execAsync, MacAlert.notifier_notify, actuator_args.
  cbn [MacAlert.arg_title MacAlert.arg_message MacAlert.arg_channel MacAlert.arg_ts].
  rewrite Ht, Hs.
  assert (Hm : js_or (JString s) (JString "You have a new on-call mention") = JString s).
  { unfold js_or. simpl. now rewrite Hne. }
  rewrite Hm. change (js_or (JString "On-Call Alert") (JString "On-Call Alert"))
    with (JString "On-Call Alert").
  destruct (negb (isEmpty (channel (request_of d)))
            && negb (isEmpty (ts_text (ts (request_of d)))));
    unfold MacAlert.nothing; cbn [snd]; rewrite <- !app_assoc; reflexivity.
Qed.

Lemma alert_shows_the_message_witness :
  exists s more,
    message (mkAlert "On-Call Alert" (JString "urgent: projector down") "it-support" 0)
    = JString s
    /\ isEmpty s = false
    /\ snd (MacAlert.triggerMacAlert (fun _ => true) env_urgent
              (actuator_args (fun _ => "17.000100")
                 (mkAlert "On-Call Alert" (JString "urgent: projector down")
                    "it-support" 0)) [])
       = []
         ++ MacAlert.Notify
              {| MacAlert.n_title := JString "On-Call Alert";
                 MacAlert.n_message := JString s;
                 MacAlert.n_subtitle :=
                   MacAlert.subtitle
                     (Some (channel (mkAlert "On-Call Alert"
                                       (JString "urgent: projector down")
                                       "it-support" 0)));
                 MacAlert.n_sound := MacAlert.DEFAULT_SOUND env_urgent;
                 MacAlert.n_wait := false |}
            :: more.
Proof.
  apply (alert_shows_the_message (fun _ => "17.000100") (fun _ => true)
           env_urgent [Message first_call]
           (mkAlert "On-Call Alert" (JString "urgent: projector down") "it-support" 0)
           []).
  vm_compute. auto.
Defined.

(** * Remarks *)

(** The first scenario of the specification. *)
Example scenario_urgent :
  shouldAlert (JString "This is URGENT please help") [] (load env_urgent)
  = (Normal true, load env_urgent).
Proof. reflexivity. Qed.

(** Entries are trimmed, and the empty ones dropped. *)
Example parse_entries :
  parseKeywords (<["ALERT_KEYWORDS" := " @Help , ,urgent,,"]> ∅)
  = ["@Help"; "urgent"].
Proof. reflexivity. Qed.

(** An empty keyword would occur in every text, the empty one included;
    [filter(Boolean)] is what keeps it out of the list. *)
Example empty_keyword_matches :
  shouldAlert (JString "") [] (mkStore [""] [] [])
  = (Normal true, mkStore [""] [] []).
Proof. reflexivity. Qed.

(** A truthy [text] that is not a string has no [toLowerCase]: the matcher
    throws, before it looks at the mentions, and the handler logs the
    error. *)
Example not_a_string :
  shouldAlert (JBool true) ["mention"] (load env_urgent)
  = (Throw TypeError, load env_urgent)
  /\ exec (on_message (mkEvent (Some (JNumber 7)) "C01" 1)) (load env_urgent)
     = mkStore ["urgent"] [] [TypeError].
Proof. split; reflexivity. Qed.

(** A run: a match, an event without text, a mention without text. *)
Example a_run :
  alerts (run [Message first_call;
               Message (mkEvent None "it-support" 5);
               AppMention (mkEvent None "general" 9)]
              (load env_urgent))
  = [ mkAlert "On-Call Alert" (JString "urgent: projector down") "it-support" 0;
      mkAlert "On-Call Alert" (JString "You were mentioned") "general" 9 ].
Proof. reflexivity. Qed.
